(** * hls.js orchestrator ([src/hls.ts]): level selection policy and lifecycle

    A shallow embedding of the [Hls] class.  The class is an orchestrator:
    it owns a handful of fields, reads and writes properties of collaborating
    controllers, calls their methods and publishes events.

    Modelling conventions
    - JavaScript numbers that hold level indices, bitrates and positions are
      integers in every use of this file; they are modelled as [Z].
      Non-integral and NaN values are outside the model.
    - Object identity (a media element, a listener function, a context) is a
      natural number.
    - The controllers' classes live in other files.  Every property of a
      controller that [hls.ts] reads or assigns is a cell of the controller's
      record here; every method [hls.ts] calls on a controller is recorded as
      an [Effect] in the log of the operation, in call order.
    - Listeners are opaque: invoking one is recorded as a [Deliver] effect and
      the listener is assumed not to call back into the instance while the
      operation that published the event is still running.
    - [logger.log] calls are diagnostics and are left out. *)

From Stdlib Require Import ZArith Lia.
From stdpp Require Import base numbers list strings.

Local Open Scope Z_scope.

(** ** Data model *)

(** [types/level]: of a level only [maxBitrate] is read here. *)
Record Level := { maxBitrate : Z }.

Definition HTMLMediaElement := nat.
Definition ListenerFn := nat.
Definition Context := nat.

(** The members of the [Events] enumeration published by this file; any other
    member is [OTHER_EVENT n]. *)
Inductive Events :=
| MEDIA_ATTACHING
| MEDIA_DETACHING
| MANIFEST_LOADING
| DESTROYING
| OTHER_EVENT (n : nat).

Inductive Payload :=
| NoData
| MediaData (media : HTMLMediaElement)
| UrlData (url : string)
| OtherData (n : nat).

Global Instance Events_eq_dec : EqDecision Events.
Proof. solve_decision. Defined.

Global Instance Payload_eq_dec : EqDecision Payload.
Proof. solve_decision. Defined.

(** The component instances the constructor can create; each [new] yields a
    distinct object. *)
Inductive Component :=
| playListLoader | keyLoader | abrControllerC | bufferController
| capLevelControllerC | fpsController | fragmentTracker
| levelControllerC | streamControllerC
| audioTrackController | audioStreamController
| subtitleTrackController | subtitleStreamController
| timelineController | emeController.

Global Instance Component_eq_dec : EqDecision Component.
Proof. solve_decision. Defined.

(** One registration in the eventemitter3 registry.  [l_context = None] is
    the default context (the emitter itself). *)
Record Listener := {
  l_event : Events;
  l_fn : ListenerFn;
  l_context : option Context;
  l_once : bool
}.

(** What an operation does to the outside, in order. *)
Inductive Effect :=
| Emit (e : Events) (p : Payload)
| Deliver (fn : ListenerFn) (ctx : option Context) (e : Events) (p : Payload)
| Destroy (c : Component)
| StartLoad (c : Component) (startPosition : Z)
| StopLoad (c : Component)
| SwapAudioCodec
| ImmediateLevelSwitch
| NextLevelSwitch
| StartCapping
| StopCapping
| RemoveLevel (levelIndex urlId : Z).

Global Instance Effect_eq_dec : EqDecision Effect.
Proof. solve_decision. Defined.

(** The part of [HlsConfig] this file consults.  The four optional track and
    stream controller classes, the timeline controller and the EME controller
    may be absent from the configuration ([false]). *)
Record HlsConfig := {
  minAutoBitrate : Z;
  cfg_capLevelToPlayerSize : bool;
  autoStartLoad : bool;
  startPosition : Z;
  cfg_audioTrackController : bool;
  cfg_audioStreamController : bool;
  cfg_subtitleTrackController : bool;
  cfg_subtitleStreamController : bool;
  cfg_timelineController : bool;
  cfg_emeController : bool
}.

(** [LevelController] as seen from [hls.ts]: [lc_levels] is [None] until a
    manifest has been parsed. *)
Record LevelController := {
  lc_levels : option (list Level);
  lc_manualLevel : Z;
  lc_level : Z;
  lc_nextLoadLevel : Z;
  lc_firstLevel : Z;
  lc_startLevel : Z
}.

(** [AbrController] as seen from [hls.ts]: the estimator's suggestion. *)
Record AbrController := { abr_nextAutoLevel : Z }.

Record Hls := {
  config : HlsConfig;
  coreComponents : list Component;
  networkControllers : list Component;
  _emitter : list Listener;
  _autoLevelCapping : Z;
  abrController : AbrController;
  levelController : LevelController;
  _media : option HTMLMediaElement;
  url : option string
}.

(** Field updates. *)
Definition with_config (c : HlsConfig) (h : Hls) : Hls :=
  {| config := c; coreComponents := coreComponents h;
     networkControllers := networkControllers h; _emitter := _emitter h;
     _autoLevelCapping := _autoLevelCapping h; abrController := abrController h;
     levelController := levelController h; _media := _media h; url := url h |}.

Definition with_emitter (ls : list Listener) (h : Hls) : Hls :=
  {| config := config h; coreComponents := coreComponents h;
     networkControllers := networkControllers h; _emitter := ls;
     _autoLevelCapping := _autoLevelCapping h; abrController := abrController h;
     levelController := levelController h; _media := _media h; url := url h |}.

Definition with_autoLevelCapping (v : Z) (h : Hls) : Hls :=
  {| config := config h; coreComponents := coreComponents h;
     networkControllers := networkControllers h; _emitter := _emitter h;
     _autoLevelCapping := v; abrController := abrController h;
     levelController := levelController h; _media := _media h; url := url h |}.

Definition with_abrController (a : AbrController) (h : Hls) : Hls :=
  {| config := config h; coreComponents := coreComponents h;
     networkControllers := networkControllers h; _emitter := _emitter h;
     _autoLevelCapping := _autoLevelCapping h; abrController := a;
     levelController := levelController h; _media := _media h; url := url h |}.

Definition with_levelController (l : LevelController) (h : Hls) : Hls :=
  {| config := config h; coreComponents := coreComponents h;
     networkControllers := networkControllers h; _emitter := _emitter h;
     _autoLevelCapping := _autoLevelCapping h; abrController := abrController h;
     levelController := l; _media := _media h; url := url h |}.

Definition with_media (m : option HTMLMediaElement) (h : Hls) : Hls :=
  {| config := config h; coreComponents := coreComponents h;
     networkControllers := networkControllers h; _emitter := _emitter h;
     _autoLevelCapping := _autoLevelCapping h; abrController := abrController h;
     levelController := levelController h; _media := m; url := url h |}.

Definition with_url (u : option string) (h : Hls) : Hls :=
  {| config := config h; coreComponents := coreComponents h;
     networkControllers := networkControllers h; _emitter := _emitter h;
     _autoLevelCapping := _autoLevelCapping h; abrController := abrController h;
     levelController := levelController h; _media := _media h; url := u |}.

Definition with_capLevelToPlayerSize (b : bool) (c : HlsConfig) : HlsConfig :=
  {| minAutoBitrate := minAutoBitrate c; cfg_capLevelToPlayerSize := b;
     autoStartLoad := autoStartLoad c; startPosition := startPosition c;
     cfg_audioTrackController := cfg_audioTrackController c;
     cfg_audioStreamController := cfg_audioStreamController c;
     cfg_subtitleTrackController := cfg_subtitleTrackController c;
     cfg_subtitleStreamController := cfg_subtitleStreamController c;
     cfg_timelineController := cfg_timelineController c;
     cfg_emeController := cfg_emeController c |}.

Definition with_manualLevel (v : Z) (l : LevelController) : LevelController :=
  {| lc_levels := lc_levels l; lc_manualLevel := v; lc_level := lc_level l;
     lc_nextLoadLevel := lc_nextLoadLevel l; lc_firstLevel := lc_firstLevel l;
     lc_startLevel := lc_startLevel l |}.

Definition with_nextLoadLevel (v : Z) (l : LevelController) : LevelController :=
  {| lc_levels := lc_levels l; lc_manualLevel := lc_manualLevel l;
     lc_level := lc_level l; lc_nextLoadLevel := v;
     lc_firstLevel := lc_firstLevel l; lc_startLevel := lc_startLevel l |}.

Definition with_firstLevel (v : Z) (l : LevelController) : LevelController :=
  {| lc_levels := lc_levels l; lc_manualLevel := lc_manualLevel l;
     lc_level := lc_level l; lc_nextLoadLevel := lc_nextLoadLevel l;
     lc_firstLevel := v; lc_startLevel := lc_startLevel l |}.

Definition with_startLevel (v : Z) (l : LevelController) : LevelController :=
  {| lc_levels := lc_levels l; lc_manualLevel := lc_manualLevel l;
     lc_level := lc_level l; lc_nextLoadLevel := lc_nextLoadLevel l;
     lc_firstLevel := lc_firstLevel l; lc_startLevel := v |}.

Definition with_levels (ls : option (list Level)) (l : LevelController)
  : LevelController :=
  {| lc_levels := ls; lc_manualLevel := lc_manualLevel l;
     lc_level := lc_level l; lc_nextLoadLevel := lc_nextLoadLevel l;
     lc_firstLevel := lc_firstLevel l; lc_startLevel := lc_startLevel l |}.

(** ** Level selection policy: the read-only properties *)

Module Policy.

(** [get levels]: the controller's list, or the empty array. *)
Definition levels (h : Hls) : list Level :=
  match lc_levels (levelController h) with
  | Some ls => ls
  | None => []
  end.

(** The [for] loop of [get minAutoLevel] with counter [i] standing before
    [rest = levels.slice(i)]; falling off the end is the final [return 0]. *)
Fixpoint minAutoLevel_loop (floor : Z) (i : nat) (rest : list Level) : Z :=
  match rest with
  | [] => 0
  | level_i :: rest' =>
      if maxBitrate level_i >? floor then Z.of_nat i
      else minAutoLevel_loop floor (S i) rest'
  end.

(** [get minAutoLevel].  [levels] is always an array, so the [!levels] guard
    never fires. *)
Definition minAutoLevel (h : Hls) : Z :=
  minAutoLevel_loop (minAutoBitrate (config h)) 0 (levels h).

(** [get autoLevelCapping]. *)
Definition autoLevelCapping (h : Hls) : Z := _autoLevelCapping h.

(** [get maxAutoLevel]. *)
Definition maxAutoLevel (h : Hls) : Z :=
  if (autoLevelCapping h =? -1) && negb (length (levels h) =? 0)%nat
  then Z.of_nat (length (levels h)) - 1
  else autoLevelCapping h.

(** [get nextAutoLevel]. *)
Definition nextAutoLevel (h : Hls) : Z :=
  Z.min (Z.max (abr_nextAutoLevel (abrController h)) (minAutoLevel h))
        (maxAutoLevel h).

(** [get firstLevel]. *)
Definition firstLevel (h : Hls) : Z :=
  Z.max (lc_firstLevel (levelController h)) (minAutoLevel h).

(** [get startLevel], [get loadLevel], [get nextLoadLevel],
    [get manualLevel], [get autoLevelEnabled], [get media]. *)
Definition startLevel (h : Hls) : Z := lc_startLevel (levelController h).
Definition loadLevel (h : Hls) : Z := lc_level (levelController h).
Definition nextLoadLevel (h : Hls) : Z := lc_nextLoadLevel (levelController h).
Definition manualLevel (h : Hls) : Z := lc_manualLevel (levelController h).
Definition autoLevelEnabled (h : Hls) : bool := manualLevel h =? -1.
Definition media (h : Hls) : option HTMLMediaElement := _media h.

(** The interval clamp in the words of the specification: a value inside
    [[lo, hi]] is kept, a value outside is moved to the endpoint it passed. *)
Definition clamp_spec (lo hi x : Z) : Z :=
  if x <? lo then lo else if hi <? x then hi else x.

End Policy.

(** ** Operations: state passing with an effect log *)

(** A method of the class: from the instance before the call to the value
    returned, the instance after the call and the effects, oldest first. *)
Definition M (A : Type) : Type := Hls -> A * Hls * list Effect.

Global Instance M_ret : MRet M := fun A a h => (a, h, []).

Global Instance M_bind : MBind M := fun A B k m h =>
  let '(a, h1, w1) := m h in
  let '(b, h2, w2) := k a h1 in
  (b, h2, w1 ++ w2).

Definition get : M Hls := fun h => (h, h, []).
Definition modify (f : Hls -> Hls) : M unit := fun h => (tt, f h, []).
Definition tell (w : list Effect) : M unit := fun h => (tt, h, w).

(** The instance and the log an operation leaves. *)
Definition state_of {A} (r : A * Hls * list Effect) : Hls := snd (fst r).
Definition log_of {A} (r : A * Hls * list Effect) : list Effect := snd r.
Definition value_of {A} (r : A * Hls * list Effect) : A := fst (fst r).

(** [Array.prototype.forEach]. *)
Fixpoint forEach {A} (xs : list A) (f : A -> M unit) : M unit :=
  match xs with
  | [] => mret tt
  | x :: xs' => f x ;; forEach xs' f
  end.

(** *** The event channel (eventemitter3 behind [on], [once], [off], [emit]) *)

Module Emitter.

Definition listens (e : Events) (l : Listener) : bool :=
  bool_decide (l_event l = e).

(** [emit]: every listener registered for [e] runs, in registration order;
    a [once] listener is unregistered as it runs. *)
Definition deliveries (e : Events) (p : Payload) (ls : list Listener)
  : list Effect :=
  map (fun l => Deliver (l_fn l) (l_context l) e p) (List.filter (listens e) ls).

Definition after_emit (e : Events) (ls : list Listener) : list Listener :=
  List.filter (fun l => negb (listens e l && l_once l)) ls.

(** [removeListener(event, fn, context, once)]: without [fn] the whole event
    is cleared; otherwise a registration is kept unless it has that [fn],
    is a once-registration when [once] is asked for, and has [context] when
    one is given. *)
Definition keeps (fn : ListenerFn) (ctx : option Context) (once : bool)
  (l : Listener) : bool :=
  negb (bool_decide (l_fn l = fn))
  || (once && negb (l_once l))
  || match ctx with
     | Some c => negb (bool_decide (l_context l = Some c))
     | None => false
     end.

Definition removeListener (e : Events) (fn : option ListenerFn)
  (ctx : option Context) (once : bool) (ls : list Listener) : list Listener :=
  match fn with
  | None => List.filter (fun l => negb (listens e l)) ls
  | Some f => List.filter (fun l => negb (listens e l) || keeps f ctx once l) ls
  end.

Definition removeAllListeners (e : option Events) (ls : list Listener)
  : list Listener :=
  match e with
  | Some e' => List.filter (fun l => negb (listens e' l)) ls
  | None => []
  end.

End Emitter.

(** ** The class *)

Module HlsClass.

Import Policy.

Definition on (e : Events) (fn : ListenerFn) (ctx : option Context) : M unit :=
  modify (fun h => with_emitter
    (_emitter h ++ [{| l_event := e; l_fn := fn; l_context := ctx;
                       l_once := false |}]) h).

Definition once (e : Events) (fn : ListenerFn) (ctx : option Context) : M unit :=
  modify (fun h => with_emitter
    (_emitter h ++ [{| l_event := e; l_fn := fn; l_context := ctx;
                       l_once := true |}]) h).

Definition removeAllListeners (e : option Events) : M unit :=
  modify (fun h => with_emitter (Emitter.removeAllListeners e (_emitter h)) h).

Definition off (e : Events) (fn : option ListenerFn) (ctx : option Context)
  (once : bool) : M unit :=
  modify (fun h =>
    with_emitter (Emitter.removeListener e fn ctx once (_emitter h)) h).

Definition listenerCount (e : Events) (h : Hls) : nat :=
  length (List.filter (Emitter.listens e) (_emitter h)).

(** [emit]: returns whether a listener existed. *)
Definition emit (e : Events) (p : Payload) : M bool :=
  fun h =>
    (negb (listenerCount e h =? 0)%nat,
     with_emitter (Emitter.after_emit e (_emitter h)) h,
     Emit e p :: Emitter.deliveries e p (_emitter h)).

(** The constructor.  [networkControllers] and [coreComponents] are the two
    arrays after all [createController] pushes. *)
Definition createController (present : bool) (c : Component) : list Component :=
  if present then [c] else [].

Definition initial_levelController : LevelController :=
  {| lc_levels := None; lc_manualLevel := -1; lc_level := -1;
     lc_nextLoadLevel := -1; lc_firstLevel := 0; lc_startLevel := -1 |}.

Definition constructor (userConfig : HlsConfig) : Hls :=
  {| config := userConfig;
     coreComponents :=
       [playListLoader; keyLoader; abrControllerC; bufferController;
        capLevelControllerC; fpsController; fragmentTracker]
       ++ createController (cfg_timelineController userConfig) timelineController
       ++ createController (cfg_emeController userConfig) emeController;
     networkControllers :=
       [levelControllerC; streamControllerC]
       ++ createController (cfg_audioTrackController userConfig) audioTrackController
       ++ createController (cfg_audioStreamController userConfig) audioStreamController
       ++ createController (cfg_subtitleTrackController userConfig) subtitleTrackController
       ++ createController (cfg_subtitleStreamController userConfig) subtitleStreamController;
     _emitter := [];
     _autoLevelCapping := -1;
     abrController := {| abr_nextAutoLevel := -1 |};
     levelController := initial_levelController;
     _media := None;
     url := None |}.

Definition attachMedia (media : HTMLMediaElement) : M unit :=
  modify (with_media (Some media));;
  emit MEDIA_ATTACHING (MediaData media);;
  mret tt.

Definition detachMedia : M unit :=
  emit MEDIA_DETACHING NoData;;
  modify (with_media None).

Definition destroy : M unit :=
  emit DESTROYING NoData;;
  detachMedia;;
  h ← get;
  forEach (coreComponents h ++ networkControllers h)
          (fun component => tell [Destroy component]);;
  modify (with_url None);;
  removeAllListeners None;;
  modify (with_autoLevelCapping (-1)).

(** [loadSource]: [absolute] is what [URLToolkit.buildAbsoluteURL] made of
    the argument against the page location. *)
Definition loadSource (absolute : string) : M unit :=
  modify (with_url (Some absolute));;
  emit MANIFEST_LOADING (UrlData absolute);;
  mret tt.

Definition startLoad (startPosition : Z) : M unit :=
  h ← get;
  forEach (networkControllers h)
          (fun controller => tell [StartLoad controller startPosition]).

Definition stopLoad : M unit :=
  h ← get;
  forEach (networkControllers h) (fun controller => tell [StopLoad controller]).

Definition swapAudioCodec : M unit := tell [SwapAudioCodec].

Definition recoverMediaError : M unit :=
  h ← get;
  let media := _media h in
  detachMedia;;
  match media with
  | Some m => attachMedia m
  | None => mret tt
  end.

Definition removeLevel (levelIndex urlId : Z) : M unit :=
  tell [RemoveLevel levelIndex urlId].

(** The property setters. *)
Definition set_loadLevel (newLevel : Z) : M unit :=
  modify (fun h =>
    with_levelController (with_manualLevel newLevel (levelController h)) h).

Definition set_currentLevel (newLevel : Z) : M unit :=
  set_loadLevel newLevel;;
  tell [ImmediateLevelSwitch].

Definition set_nextLevel (newLevel : Z) : M unit :=
  modify (fun h =>
    with_levelController (with_manualLevel newLevel (levelController h)) h);;
  tell [NextLevelSwitch].

Definition set_nextLoadLevel (level : Z) : M unit :=
  modify (fun h =>
    with_levelController (with_nextLoadLevel level (levelController h)) h).

Definition set_firstLevel (newLevel : Z) : M unit :=
  modify (fun h =>
    with_levelController (with_firstLevel newLevel (levelController h)) h).

Definition set_startLevel (newLevel : Z) : M unit :=
  h ← get;
  let newLevel' :=
    if negb (newLevel =? -1) then Z.max newLevel (minAutoLevel h) else newLevel in
  modify (fun h =>
    with_levelController (with_startLevel newLevel' (levelController h)) h).

Definition set_autoLevelCapping (newLevel : Z) : M unit :=
  h ← get;
  if negb (_autoLevelCapping h =? newLevel)
  then modify (with_autoLevelCapping newLevel)
  else mret tt.

Definition set_capLevelToPlayerSize (shouldStartCapping : bool) : M unit :=
  h ← get;
  let newCapLevelToPlayerSize := shouldStartCapping in
  if negb (Bool.eqb newCapLevelToPlayerSize
                    (cfg_capLevelToPlayerSize (config h)))
  then
    (if newCapLevelToPlayerSize
     then tell [StartCapping]
     else tell [StopCapping];;
          set_autoLevelCapping (-1);;
          tell [NextLevelSwitch]);;
    modify (fun h =>
      with_config (with_capLevelToPlayerSize newCapLevelToPlayerSize (config h)) h)
  else mret tt.

Definition set_nextAutoLevel (nextLevel : Z) : M unit :=
  h ← get;
  modify (with_abrController
            {| abr_nextAutoLevel := Z.max (minAutoLevel h) nextLevel |}).

End HlsClass.

(** ** Reading a log *)

Module Log.

Definition is_emit (x : Effect) : bool :=
  match x with Emit _ _ => true | _ => false end.

Definition is_deliver (x : Effect) : bool :=
  match x with Deliver _ _ _ _ => true | _ => false end.

(** The events published, in order. *)
Definition emissions (w : list Effect) : list Effect := List.filter is_emit w.

(** The listener invocations, in order. *)
Definition delivered (w : list Effect) : list Effect :=
  List.filter is_deliver w.

(** How many times the effect [x] occurs. *)
Definition calls (x : Effect) (w : list Effect) : nat :=
  count_occ Effect_eq_dec w x.

End Log.

(** ** Histories of an instance *)

Module History.

Import HlsClass.

(** One step in the life of an instance: a call of the public interface, or
    a collaborator changing its own cells ([LevelControllerChanges] when a
    manifest is parsed, a level switches or is removed;
    [AbrControllerChanges] when the estimator revises its suggestion).
    [LoadSource absolute] is a [loadSource] call whose argument url-toolkit
    resolved to [absolute]; the caller's own argument is not recorded. *)
Inductive Op :=
| On (e : Events) (fn : ListenerFn) (ctx : option Context)
| Once (e : Events) (fn : ListenerFn) (ctx : option Context)
| Off (e : Events) (fn : option ListenerFn) (ctx : option Context) (once : bool)
| RemoveAllListeners (e : option Events)
| EmitEvent (e : Events) (p : Payload)
| DestroyInstance
| AttachMedia (media : HTMLMediaElement)
| DetachMedia
| LoadSource (absolute : string)
| StartLoading (startPosition : Z)
| StopLoading
| SwapCodec
| RecoverMediaError
| RemoveOneLevel (levelIndex urlId : Z)
| SetCurrentLevel (newLevel : Z)
| SetNextLevel (newLevel : Z)
| SetLoadLevel (newLevel : Z)
| SetNextLoadLevel (level : Z)
| SetFirstLevel (newLevel : Z)
| SetStartLevel (newLevel : Z)
| SetCapLevelToPlayerSize (shouldStartCapping : bool)
| SetAutoLevelCapping (newLevel : Z)
| SetNextAutoLevel (nextLevel : Z)
| LevelControllerChanges (l : LevelController)
| AbrControllerChanges (a : AbrController).

Definition step (o : Op) : M unit :=
  match o with
  | On e fn ctx => on e fn ctx
  | Once e fn ctx => once e fn ctx
  | Off e fn ctx o => off e fn ctx o
  | RemoveAllListeners e => removeAllListeners e
  | EmitEvent e p => emit e p;; mret tt
  | DestroyInstance => destroy
  | AttachMedia m => attachMedia m
  | DetachMedia => detachMedia
  | LoadSource u => loadSource u
  | StartLoading p => startLoad p
  | StopLoading => stopLoad
  | SwapCodec => swapAudioCodec
  | RecoverMediaError => recoverMediaError
  | RemoveOneLevel i u => removeLevel i u
  | SetCurrentLevel v => set_currentLevel v
  | SetNextLevel v => set_nextLevel v
  | SetLoadLevel v => set_loadLevel v
  | SetNextLoadLevel v => set_nextLoadLevel v
  | SetFirstLevel v => set_firstLevel v
  | SetStartLevel v => set_startLevel v
  | SetCapLevelToPlayerSize b => set_capLevelToPlayerSize b
  | SetAutoLevelCapping v => set_autoLevelCapping v
  | SetNextAutoLevel v => set_nextAutoLevel v
  | LevelControllerChanges l => modify (with_levelController l)
  | AbrControllerChanges a => modify (with_abrController a)
  end.

(** The instance after [new Hls(cfg)] and the steps [ops], oldest first. *)
Definition after (cfg : HlsConfig) (ops : list Op) : Hls :=
  state_of (forEach ops step (constructor cfg)).

End History.

(** ** Concrete instances used in the examples *)

Module Examples.

Import HlsClass History.

Definition defaultConfig : HlsConfig :=
  {| minAutoBitrate := 0; cfg_capLevelToPlayerSize := false;
     autoStartLoad := true; startPosition := -1;
     cfg_audioTrackController := true; cfg_audioStreamController := true;
     cfg_subtitleTrackController := true; cfg_subtitleStreamController := true;
     cfg_timelineController := true; cfg_emeController := true |}.

Definition floor200k : HlsConfig :=
  {| minAutoBitrate := 200000; cfg_capLevelToPlayerSize := true;
     autoStartLoad := true; startPosition := -1;
     cfg_audioTrackController := true; cfg_audioStreamController := false;
     cfg_subtitleTrackController := false; cfg_subtitleStreamController := false;
     cfg_timelineController := false; cfg_emeController := false |}.

Definition three_levels : list Level :=
  [ {| maxBitrate := 100000 |}; {| maxBitrate := 500000 |};
    {| maxBitrate := 1000000 |} ].

Definition parsed (ls : list Level) : Op :=
  LevelControllerChanges (with_levels (Some ls) initial_levelController).

(** A fresh instance: nothing loaded yet. *)
Definition fresh : Hls := constructor defaultConfig.

(** Three levels, floor 200000, no capping, the estimator suggesting 5. *)
Definition playing : Hls :=
  after floor200k
    [parsed three_levels; AbrControllerChanges {| abr_nextAutoLevel := 5 |}].

(** The same stream capped to level 0 while the floor excludes level 0. *)
Definition capped_below_floor : Hls :=
  after floor200k
    [parsed three_levels; SetAutoLevelCapping 0;
     AbrControllerChanges {| abr_nextAutoLevel := 0 |}].

(** A stream all of whose levels lie under the floor of 200000. *)
Definition all_below_floor : Hls :=
  after floor200k
    [parsed [ {| maxBitrate := 100000 |}; {| maxBitrate := 150000 |} ]].

(** A fresh instance with one listener waiting for the detaching event. *)
Definition listening : Hls :=
  after defaultConfig [On MEDIA_DETACHING 7%nat None].

(** An instance with media 3 attached and a source loaded. *)
Definition attached_history : list Op :=
  [On DESTROYING 1%nat None; Once MEDIA_DETACHING 2%nat (Some 9%nat);
   AttachMedia 3%nat; LoadSource "https://example.com/a.m3u8";
   parsed three_levels; SetAutoLevelCapping 1].

Definition attached : Hls := after floor200k attached_history.

End Examples.

(** ** The setters of the level properties, as one family *)

Module LevelSetters.

Import HlsClass.

(** The seven setters that take a level index. *)
Definition all (v : Z) : list (M unit) :=
  [set_currentLevel v; set_nextLevel v; set_loadLevel v; set_nextLoadLevel v;
   set_firstLevel v; set_startLevel v; set_nextAutoLevel v].

End LevelSetters.

(** ** The level selection policy *)

Section PolicyFacts.

Import Policy HlsClass History Examples.

Implicit Types (h : Hls) (ls rest : list Level) (floor : Z).

(** The loop returns the position of the first level above the floor, counted
    from where the counter stood, and 0 when it finds none. *)
Lemma minAutoLevel_loop_find floor i rest :
  minAutoLevel_loop floor i rest =
  match list_find (λ l, floor < maxBitrate l) rest with
  | Some (j, _) => Z.of_nat (i + j)
  | None => 0
  end.
Proof.
  revert i. induction rest as [|l rest IH]; intros i; simpl; [done|].
  destruct (Z.gtb_spec (maxBitrate l) floor) as [Hgt|Hle].
  - rewrite decide_True by lia. f_equal. lia.
  - rewrite decide_False by lia. rewrite IH.
    destruct (list_find _ rest) as [[j x]|]; simpl; [f_equal; lia|done].
Qed.

Lemma minAutoLevel_find h :
  minAutoLevel h =
  match list_find (λ l, minAutoBitrate (config h) < maxBitrate l) (levels h) with
  | Some (j, _) => Z.of_nat j
  | None => 0
  end.
Proof. unfold minAutoLevel. by rewrite minAutoLevel_loop_find. Qed.

Lemma minAutoLevel_nonneg h : 0 ≤ minAutoLevel h.
Proof.
  rewrite minAutoLevel_find.
  destruct (list_find _ _) as [[j x]|]; lia.
Qed.

Lemma minAutoLevel_lt_length h :
  levels h ≠ [] → minAutoLevel h < Z.of_nat (length (levels h)).
Proof.
  intros Hne. rewrite minAutoLevel_find.
  destruct (list_find _ _) as [[j x]|] eqn:Hf.
  - apply list_find_Some in Hf as (Hj & _ & _).
    apply lookup_lt_Some in Hj. lia.
  - destruct (levels h); [done|simpl; lia].
Qed.

(** Without capping and with at least one level, the automatic range is not
    empty. *)
Lemma minAutoLevel_le_maxAutoLevel_uncapped h :
  levels h ≠ [] → autoLevelCapping h = -1 → minAutoLevel h ≤ maxAutoLevel h.
Proof.
  intros Hne Hcap. pose proof (minAutoLevel_lt_length h Hne) as Hlt.
  unfold maxAutoLevel. rewrite Hcap.
  destruct (levels h) as [|l ls] eqn:E; [done|].
  simpl in *. lia.
Qed.

(** C3.  [minAutoLevel] is the smallest index whose level has a maximum
    bitrate strictly above the configured floor: if index [i] holds such a
    level and no smaller index does, the getter returns [i]; if no level is
    above the floor, or there is no level at all, it returns 0. *)
Theorem minAutoLevel_first_above_floor h :
  (∀ (i : nat) (l : Level),
      levels h !! i = Some l →
      minAutoBitrate (config h) < maxBitrate l →
      (∀ (j : nat) (l' : Level),
          (j < i)%nat → levels h !! j = Some l' →
          maxBitrate l' ≤ minAutoBitrate (config h)) →
      minAutoLevel h = Z.of_nat i)
  ∧ ((∀ l, l ∈ levels h → maxBitrate l ≤ minAutoBitrate (config h)) →
     minAutoLevel h = 0)
  ∧ (levels h = [] → minAutoLevel h = 0).
Proof.
  split; [|split].
  - intros i l Hi Hl Hmin. rewrite minAutoLevel_find.
    destruct (list_find _ _) as [[j x]|] eqn:Hf.
    + apply list_find_Some in Hf as (Hj & Hx & Hfirst).
      destruct (Nat.lt_trichotomy i j) as [Hlt|[->|Hgt]]; [|done|].
      * specialize (Hfirst i l Hi Hlt). lia.
      * specialize (Hmin j x Hgt Hj). lia.
    + apply list_find_None in Hf.
      rewrite Forall_lookup in Hf. specialize (Hf i l Hi). lia.
  - intros Hall. rewrite minAutoLevel_find.
    destruct (list_find _ _) as [[j x]|] eqn:Hf; [|done].
    apply list_find_Some in Hf as (Hj & Hx & _).
    apply list_elem_of_lookup_2 in Hj. specialize (Hall x Hj). lia.
  - intros Hnil. unfold minAutoLevel. by rewrite Hnil.
Qed.

Lemma minAutoLevel_first_above_floor_witness :
  levels playing !! 1%nat = Some {| maxBitrate := 500000 |}
  ∧ minAutoLevel playing = 1
  ∧ minAutoLevel all_below_floor = 0
  ∧ minAutoLevel fresh = 0.
Proof.
  split; [reflexivity|]. split; [|split].
  - apply (proj1 (minAutoLevel_first_above_floor playing) 1%nat
             {| maxBitrate := 500000 |}).
    + reflexivity.
    + vm_compute. reflexivity.
    + intros j l' Hj Hl. destruct j as [|j]; [|lia].
      vm_compute in Hl. injection Hl as <-. vm_compute. discriminate.
  - apply (proj1 (proj2 (minAutoLevel_first_above_floor all_below_floor))).
    intros l Hl. vm_compute in Hl.
    repeat (apply elem_of_cons in Hl as [->|Hl]; [vm_compute; discriminate|]).
    by apply elem_of_nil in Hl.
  - apply (proj2 (proj2 (minAutoLevel_first_above_floor fresh))). reflexivity.
Defined.

(** C1, as the code has it.  The upper bound holds in every state.  The
    lower bound holds whenever the automatic range is not empty, that is
    whenever [minAutoLevel ≤ maxAutoLevel]; when the range is empty the getter
    returns [maxAutoLevel]. *)
Theorem nextAutoLevel_within_bounds h :
  nextAutoLevel h ≤ maxAutoLevel h
  ∧ (minAutoLevel h ≤ maxAutoLevel h →
     minAutoLevel h ≤ nextAutoLevel h ≤ maxAutoLevel h)
  ∧ (maxAutoLevel h < minAutoLevel h → nextAutoLevel h = maxAutoLevel h).
Proof. unfold nextAutoLevel. lia. Qed.

Lemma nextAutoLevel_within_bounds_witness :
  minAutoLevel playing ≤ maxAutoLevel playing
  ∧ minAutoLevel playing ≤ nextAutoLevel playing ≤ maxAutoLevel playing
  ∧ maxAutoLevel fresh < minAutoLevel fresh
  ∧ nextAutoLevel fresh = maxAutoLevel fresh.
Proof.
  assert (H1 : minAutoLevel playing ≤ maxAutoLevel playing)
    by (vm_compute; discriminate).
  assert (H2 : maxAutoLevel fresh < minAutoLevel fresh) by reflexivity.
  split; [exact H1|]. split; [|split; [exact H2|]].
  - exact (proj1 (proj2 (nextAutoLevel_within_bounds playing)) H1).
  - exact (proj2 (proj2 (nextAutoLevel_within_bounds fresh)) H2).
Defined.

(** C1 as stated fails on an instance that has not loaded any level: the
    range is [0 .. -1] and the getter returns -1. *)
Lemma chain_fails_before_levels_are_loaded :
  minAutoLevel fresh = 0 ∧ nextAutoLevel fresh = -1 ∧ maxAutoLevel fresh = -1
  ∧ ¬ (minAutoLevel fresh ≤ nextAutoLevel fresh ≤ maxAutoLevel fresh).
Proof.
  repeat split; try reflexivity.
  vm_compute. intros [H _]. by apply H.
Qed.

(** C2, as the code has it.  The getter returns
    [min (max suggestion minAutoLevel) maxAutoLevel] and never rejects.  When
    the range is not empty this is the suggestion clamped into it: kept when
    inside, moved to [minAutoLevel] when below, to [maxAutoLevel] when above.
    When the range is empty the getter returns [maxAutoLevel]. *)
Theorem nextAutoLevel_clamps_suggestion h :
  let s := abr_nextAutoLevel (abrController h) in
  nextAutoLevel h = Z.min (Z.max s (minAutoLevel h)) (maxAutoLevel h)
  ∧ (minAutoLevel h ≤ maxAutoLevel h →
     nextAutoLevel h = clamp_spec (minAutoLevel h) (maxAutoLevel h) s
     ∧ minAutoLevel h ≤ nextAutoLevel h ≤ maxAutoLevel h
     ∧ (minAutoLevel h ≤ s ≤ maxAutoLevel h → nextAutoLevel h = s)
     ∧ (s < minAutoLevel h → nextAutoLevel h = minAutoLevel h)
     ∧ (maxAutoLevel h < s → nextAutoLevel h = maxAutoLevel h))
  ∧ (maxAutoLevel h < minAutoLevel h → nextAutoLevel h = maxAutoLevel h).
Proof.
  intros s. unfold nextAutoLevel, clamp_spec. fold s.
  split; [done|]. split; [|lia].
  intros Hrange.
  destruct (Z.ltb_spec s (minAutoLevel h));
    destruct (Z.ltb_spec (maxAutoLevel h) s); lia.
Qed.

Lemma nextAutoLevel_clamps_suggestion_witness :
  minAutoLevel playing ≤ maxAutoLevel playing
  ∧ maxAutoLevel playing < abr_nextAutoLevel (abrController playing)
  ∧ nextAutoLevel playing = 2.
Proof.
  assert (H1 : minAutoLevel playing ≤ maxAutoLevel playing)
    by (vm_compute; discriminate).
  assert (H2 : maxAutoLevel playing < abr_nextAutoLevel (abrController playing))
    by reflexivity.
  split; [exact H1|]. split; [exact H2|].
  destruct (proj1 (proj2 (nextAutoLevel_clamps_suggestion playing)) H1)
    as (_ & _ & _ & _ & Habove).
  rewrite (Habove H2). reflexivity.
Defined.

(** C2 as stated fails when the capping lies under the bitrate floor: with
    levels 100000, 500000, 1000000, floor 200000, capping 0 and a suggestion
    of 0, the suggestion is under [minAutoLevel = 1] yet the getter answers
    0, which is outside the range and is not what the clamp gives. *)
Lemma nextAutoLevel_outside_range_when_capped_below_floor :
  abr_nextAutoLevel (abrController capped_below_floor) = 0
  ∧ minAutoLevel capped_below_floor = 1
  ∧ maxAutoLevel capped_below_floor = 0
  ∧ nextAutoLevel capped_below_floor = 0
  ∧ ¬ (minAutoLevel capped_below_floor ≤ nextAutoLevel capped_below_floor
       ≤ maxAutoLevel capped_below_floor)
  ∧ nextAutoLevel capped_below_floor
    ≠ clamp_spec (minAutoLevel capped_below_floor)
                 (maxAutoLevel capped_below_floor)
                 (abr_nextAutoLevel (abrController capped_below_floor)).
Proof.
  repeat split; try reflexivity.
  - vm_compute. intros [H _]. by apply H.
  - vm_compute. discriminate.
Qed.

(** C9.  Setting [startLevel] to [L ≠ -1] stores [max L minAutoLevel] in the
    level controller; setting it to -1 stores -1; nothing else changes and
    nothing is called. *)
Theorem set_startLevel_stores_clamped h (L : Z) :
  (L ≠ -1 →
   set_startLevel L h =
   (tt, with_levelController
          (with_startLevel (Z.max L (minAutoLevel h)) (levelController h)) h,
    [])
   ∧ startLevel (state_of (set_startLevel L h)) = Z.max L (minAutoLevel h))
  ∧ set_startLevel (-1) h =
    (tt, with_levelController (with_startLevel (-1) (levelController h)) h, [])
  ∧ startLevel (state_of (set_startLevel (-1) h)) = -1.
Proof.
  split; [|split; reflexivity].
  intros HL. unfold set_startLevel, state_of, startLevel; cbn.
  destruct (Z.eqb_spec L (-1)); [done|]. done.
Qed.

Lemma set_startLevel_stores_clamped_witness :
  startLevel (state_of (set_startLevel 0 playing)) = 1
  ∧ startLevel (state_of (set_startLevel 2 playing)) = 2.
Proof.
  split.
  - rewrite (proj2 (proj1 (set_startLevel_stores_clamped playing 0)
                      ltac:(discriminate))).
    reflexivity.
  - rewrite (proj2 (proj1 (set_startLevel_stores_clamped playing 2)
                      ltac:(discriminate))).
    reflexivity.
Defined.

(** C10.  The [nextAutoLevel] setter stores [max minAutoLevel v] in the
    estimator and touches nothing else: a value under [minAutoLevel] is
    raised to it, any other value is stored as it is, so a value above
    [maxAutoLevel] stays above it in the estimator.  Reading the property
    back goes through the getter, which answers at most [maxAutoLevel]. *)
Theorem set_nextAutoLevel_stores_floor_only h (v : Z) :
  let h' := state_of (set_nextAutoLevel v h) in
  let stored := abr_nextAutoLevel (abrController h') in
  set_nextAutoLevel v h =
    (tt, with_abrController {| abr_nextAutoLevel := Z.max (minAutoLevel h) v |} h,
     [])
  ∧ stored = Z.max (minAutoLevel h) v
  ∧ (v < minAutoLevel h → stored = minAutoLevel h)
  ∧ (minAutoLevel h ≤ v → stored = v)
  ∧ (maxAutoLevel h < v → maxAutoLevel h' < stored)
  ∧ minAutoLevel h' = minAutoLevel h
  ∧ maxAutoLevel h' = maxAutoLevel h
  ∧ nextAutoLevel h' ≤ maxAutoLevel h'
  ∧ (maxAutoLevel h < v → nextAutoLevel h' = maxAutoLevel h).
Proof.
  intros h' stored.
  assert (Hs : stored = Z.max (minAutoLevel h) v) by reflexivity.
  assert (Hmin : minAutoLevel h' = minAutoLevel h) by reflexivity.
  assert (Hmax : maxAutoLevel h' = maxAutoLevel h) by reflexivity.
  assert (Hnext : nextAutoLevel h' =
                  Z.min (Z.max stored (minAutoLevel h)) (maxAutoLevel h))
    by reflexivity.
  repeat split; try done; lia.
Qed.

Lemma set_nextAutoLevel_stores_floor_only_witness :
  abr_nextAutoLevel (abrController (state_of (set_nextAutoLevel 0 playing))) = 1
  ∧ abr_nextAutoLevel (abrController (state_of (set_nextAutoLevel 9 playing))) = 9
  ∧ nextAutoLevel (state_of (set_nextAutoLevel 9 playing)) = 2.
Proof.
  destruct (set_nextAutoLevel_stores_floor_only playing 0)
    as (_ & _ & Hlow & _).
  destruct (set_nextAutoLevel_stores_floor_only playing 9)
    as (_ & _ & _ & Hkeep & _ & _ & _ & _ & Hread).
  split; [|split].
  - rewrite Hlow; reflexivity.
  - rewrite Hkeep; [reflexivity | vm_compute; discriminate].
  - rewrite Hread; reflexivity.
Defined.

End PolicyFacts.

(** ** Lifecycle and switching *)

Section LifecycleFacts.

Import Policy HlsClass History Examples Log.

Implicit Types (h : Hls) (w : list Effect) (ls : list Listener).

(** *** What each method computes *)

(** Unfold the monad under a method body and run it. *)
Ltac exec :=
  unfold mbind, M_bind, mret, M_ret, modify, get, tell, emit,
    state_of, log_of, value_of;
  cbn -[Emitter.deliveries Emitter.after_emit].

Lemma forEach_tell {A} (f : A → Effect) (xs : list A) h :
  forEach xs (λ x, tell [f x]) h = (tt, h, map f xs).
Proof.
  induction xs as [|x xs IH]; [done|].
  cbn [forEach map]. unfold mbind, M_bind, tell at 1. cbn beta iota.
  by rewrite IH.
Qed.

Lemma forEach_log {A} (f : A → Effect) (xs : list A) h :
  forEach xs (λ x h', (tt, h', [f x])) h = (tt, h, map f xs).
Proof. exact (forEach_tell f xs h). Qed.

Lemma attachMedia_run (m : HTMLMediaElement) h :
  attachMedia m h =
  (tt,
   with_emitter (Emitter.after_emit MEDIA_ATTACHING (_emitter h))
                (with_media (Some m) h),
   Emit MEDIA_ATTACHING (MediaData m)
     :: Emitter.deliveries MEDIA_ATTACHING (MediaData m) (_emitter h)).
Proof. unfold attachMedia. exec. by rewrite app_nil_r. Qed.

Lemma detachMedia_run h :
  detachMedia h =
  (tt,
   with_media None (with_emitter (Emitter.after_emit MEDIA_DETACHING (_emitter h)) h),
   Emit MEDIA_DETACHING NoData
     :: Emitter.deliveries MEDIA_DETACHING NoData (_emitter h)).
Proof. unfold detachMedia. exec. by rewrite app_nil_r. Qed.

Lemma emissions_app w1 w2 : emissions (w1 ++ w2) = emissions w1 ++ emissions w2.
Proof. apply List.filter_app. Qed.

Lemma emissions_deliveries e p ls : emissions (Emitter.deliveries e p ls) = [].
Proof.
  unfold Emitter.deliveries.
  induction (List.filter (Emitter.listens e) ls) as [|l r IH]; [done|].
  exact IH.
Qed.

Lemma emissions_map_Destroy (cs : list Component) :
  emissions (map Destroy cs) = [].
Proof. induction cs as [|c cs IH]; [done|exact IH]. Qed.

Lemma calls_app x w1 w2 : calls x (w1 ++ w2) = (calls x w1 + calls x w2)%nat.
Proof. apply count_occ_app. Qed.

Lemma calls_deliveries x e p ls :
  is_deliver x = false → calls x (Emitter.deliveries e p ls) = 0%nat.
Proof.
  intros Hx. unfold Emitter.deliveries, calls.
  induction (List.filter (Emitter.listens e) ls) as [|l r IH]; [done|].
  cbn [map count_occ]. destruct (Effect_eq_dec _ x) as [<-|_]; [done|exact IH].
Qed.

Lemma calls_map_Destroy (c : Component) (cs : list Component) :
  calls (Destroy c) (map Destroy cs) = count_occ Component_eq_dec cs c.
Proof.
  unfold calls. induction cs as [|d cs IH]; [done|].
  cbn [map count_occ].
  destruct (Effect_eq_dec (Destroy d) (Destroy c)) as [E|N];
    destruct (Component_eq_dec d c) as [E'|N']; try congruence.
Qed.

Lemma destroy_run h :
  destroy h =
  (tt,
   with_autoLevelCapping (-1)
     (with_emitter []
        (with_url None
           (with_media None
              (with_emitter
                 (Emitter.after_emit MEDIA_DETACHING
                    (Emitter.after_emit DESTROYING (_emitter h))) h)))),
   Emit DESTROYING NoData
     :: Emitter.deliveries DESTROYING NoData (_emitter h)
     ++ Emit MEDIA_DETACHING NoData
     :: Emitter.deliveries MEDIA_DETACHING NoData
          (Emitter.after_emit DESTROYING (_emitter h))
     ++ map Destroy (coreComponents h ++ networkControllers h)).
Proof.
  unfold destroy, detachMedia, removeAllListeners. exec.
  rewrite forEach_log. cbn -[Emitter.deliveries Emitter.after_emit].
  by rewrite !app_nil_r.
Qed.

Lemma recoverMediaError_run h :
  recoverMediaError h =
  match _media h with
  | Some m => (detachMedia;; attachMedia m) h
  | None => detachMedia h
  end.
Proof.
  unfold recoverMediaError. exec.
  destruct (_media h) as [m|]; [done|].
  destruct (detachMedia h) as [[[] h'] w]. by rewrite app_nil_r.
Qed.

Lemma with_autoLevelCapping_same h :
  with_autoLevelCapping (_autoLevelCapping h) h = h.
Proof. by destruct h. Qed.

Lemma set_autoLevelCapping_run (v : Z) h :
  set_autoLevelCapping v h = (tt, with_autoLevelCapping v h, []).
Proof.
  unfold set_autoLevelCapping. exec.
  destruct (Z.eqb_spec (_autoLevelCapping h) v) as [<-|_]; cbn; [|done].
  by rewrite with_autoLevelCapping_same.
Qed.

(** *** The component sets are fixed at construction *)

Lemma constructor_components_NoDup (cfg : HlsConfig) :
  NoDup (coreComponents (constructor cfg)
         ++ networkControllers (constructor cfg)).
Proof.
  destruct cfg as [? ? ? ? [] [] [] [] [] []];
    apply (bool_decide_unpack _); vm_compute; exact I.
Qed.

Lemma step_keeps_components (o : Op) h :
  coreComponents (state_of (step o h)) = coreComponents h
  ∧ networkControllers (state_of (step o h)) = networkControllers h.
Proof.
  destruct o; cbn [step];
    try (unfold startLoad, stopLoad; exec; rewrite forEach_log; done);
    try rewrite destroy_run; try rewrite recoverMediaError_run;
    try rewrite set_autoLevelCapping_run;
    try done.
  - destruct (_media h); done.
  - unfold set_capLevelToPlayerSize. exec.
    destruct shouldStartCapping, (cfg_capLevelToPlayerSize (config h)); cbn;
      try done.
    rewrite set_autoLevelCapping_run. done.
Qed.

Lemma after_snoc (cfg : HlsConfig) (ops : list Op) (o : Op) :
  after cfg (ops ++ [o]) = state_of (step o (after cfg ops)).
Proof.
  unfold after. generalize (constructor cfg) as h.
  induction ops as [|o' ops IH]; intros h.
  - cbn [app forEach]. exec. by destruct (step o h) as [[[] h'] w].
  - cbn [app forEach]. unfold mbind, M_bind.
    destruct (step o' h) as [[[] h1] w1].
    specialize (IH h1). unfold state_of in *.
    destruct (forEach (ops ++ [o]) step h1) as [[[] h2] w2].
    destruct (forEach ops step h1) as [[[] h3] w3].
    cbn in *. exact IH.
Qed.

Lemma after_keeps_components (cfg : HlsConfig) (ops : list Op) :
  coreComponents (after cfg ops) = coreComponents (constructor cfg)
  ∧ networkControllers (after cfg ops) = networkControllers (constructor cfg).
Proof.
  induction ops as [|o ops IH] using rev_ind; [done|].
  rewrite after_snoc.
  destruct (step_keeps_components o (after cfg ops)) as [-> ->]. exact IH.
Qed.

Lemma after_components_NoDup (cfg : HlsConfig) (ops : list Op) :
  NoDup (coreComponents (after cfg ops) ++ networkControllers (after cfg ops)).
Proof.
  destruct (after_keeps_components cfg ops) as [-> ->].
  apply constructor_components_NoDup.
Qed.

(** *** The claims *)

(** C4.  On an instance with any history, [destroy] publishes the destroying
    event, then the media-detaching event (leaving no media attached), then
    calls [destroy] on the members of [coreComponents] followed by those of
    [networkControllers], each exactly once and on nothing else; afterwards
    the source locator is cleared, the listener registry is empty, so that an
    event published later reaches no listener, and [autoLevelCapping] is -1.
    The configuration, the component sets and the controllers' cells are
    left as they were. *)
Theorem destroy_tears_everything_down (cfg : HlsConfig) (ops : list Op) :
  let h := after cfg ops in
  let components := coreComponents h ++ networkControllers h in
  let h' := state_of (destroy h) in
  log_of (destroy h) =
    Emit DESTROYING NoData
      :: Emitter.deliveries DESTROYING NoData (_emitter h)
      ++ Emit MEDIA_DETACHING NoData
      :: Emitter.deliveries MEDIA_DETACHING NoData
           (Emitter.after_emit DESTROYING (_emitter h))
      ++ map Destroy components
  ∧ emissions (log_of (destroy h)) =
      [Emit DESTROYING NoData; Emit MEDIA_DETACHING NoData]
  ∧ (∀ c, c ∈ components → calls (Destroy c) (log_of (destroy h)) = 1%nat)
  ∧ (∀ c, c ∉ components → calls (Destroy c) (log_of (destroy h)) = 0%nat)
  ∧ media h' = None
  ∧ url h' = None
  ∧ _emitter h' = []
  ∧ (∀ e p, emit e p h' = (false, h', [Emit e p]))
  ∧ autoLevelCapping h' = -1
  ∧ config h' = config h
  ∧ coreComponents h' = coreComponents h
  ∧ networkControllers h' = networkControllers h
  ∧ levelController h' = levelController h
  ∧ abrController h' = abrController h.
Proof.
  intros h components h'.
  pose proof (after_components_NoDup cfg ops) as Hnodup.
  fold h in Hnodup. fold components in Hnodup.
  subst h'. rewrite destroy_run. unfold state_of, log_of. cbn [fst snd].
  fold components.
  assert (Hcalls : ∀ c,
    calls (Destroy c)
      (Emit DESTROYING NoData
         :: Emitter.deliveries DESTROYING NoData (_emitter h)
         ++ Emit MEDIA_DETACHING NoData
         :: Emitter.deliveries MEDIA_DETACHING NoData
              (Emitter.after_emit DESTROYING (_emitter h))
         ++ map Destroy components)
    = count_occ Component_eq_dec components c).
  { intros c.
    change (Emit DESTROYING NoData :: ?a ++ ?b)
      with ([Emit DESTROYING NoData] ++ a ++ b).
    change (Emit MEDIA_DETACHING NoData :: ?a ++ ?b)
      with ([Emit MEDIA_DETACHING NoData] ++ a ++ b).
    rewrite !calls_app, !calls_deliveries, calls_map_Destroy by done.
    unfold calls. cbn [count_occ].
    destruct (Effect_eq_dec _ _) as [?|_]; [done|].
    destruct (Effect_eq_dec _ _) as [?|_]; [done|]. lia. }
  split; [done|]. split.
  { change (Emit DESTROYING NoData :: ?a ++ ?b)
      with ([Emit DESTROYING NoData] ++ a ++ b).
    change (Emit MEDIA_DETACHING NoData :: ?a ++ ?b)
      with ([Emit MEDIA_DETACHING NoData] ++ a ++ b).
    by rewrite !emissions_app, !emissions_deliveries, emissions_map_Destroy. }
  split.
  { intros c Hc. rewrite Hcalls.
    apply NoDup_ListNoDup in Hnodup.
    apply (proj1 (NoDup_count_occ' Component_eq_dec components) Hnodup).
    by apply list_elem_of_In. }
  split.
  { intros c Hc. rewrite Hcalls. apply count_occ_not_In.
    by rewrite <- list_elem_of_In. }
  repeat split.
Qed.

Lemma destroy_tears_everything_down_witness :
  let h := after floor200k attached_history in
  streamControllerC ∈ (coreComponents h ++ networkControllers h)
  ∧ calls (Destroy streamControllerC) (log_of (destroy h)) = 1%nat
  ∧ (emeController ∉ (coreComponents h ++ networkControllers h))
  ∧ calls (Destroy emeController) (log_of (destroy h)) = 0%nat.
Proof.
  intros h.
  assert (Hin : streamControllerC ∈ (coreComponents h ++ networkControllers h)).
  { apply (bool_decide_unpack _). vm_compute. exact I. }
  assert (Hout : emeController ∉ (coreComponents h ++ networkControllers h)).
  { apply (bool_decide_unpack _). vm_compute. exact I. }
  destruct (destroy_tears_everything_down floor200k attached_history)
    as (_ & _ & Hone & Hnone & _).
  split; [exact Hin|]. split; [exact (Hone _ Hin)|].
  split; [exact Hout|exact (Hnone _ Hout)].
Defined.

(** C5.  Setting [currentLevel] to [L] and setting [loadLevel] to [L] leave
    the same instance, the one in which only the level controller's manual
    level has changed, to [L].  Setting [loadLevel] calls nothing; setting
    [currentLevel] makes exactly one call, the stream controller's immediate
    level switch. *)
Theorem currentLevel_differs_from_loadLevel_by_one_call h (L : Z) :
  let h' := with_levelController (with_manualLevel L (levelController h)) h in
  set_loadLevel L h = (tt, h', [])
  ∧ set_currentLevel L h = (tt, h', [ImmediateLevelSwitch])
  ∧ manualLevel (state_of (set_loadLevel L h)) = L
  ∧ manualLevel (state_of (set_currentLevel L h)) = L
  ∧ state_of (set_currentLevel L h) = state_of (set_loadLevel L h)
  ∧ log_of (set_currentLevel L h)
    = log_of (set_loadLevel L h) ++ [ImmediateLevelSwitch]
  ∧ calls ImmediateLevelSwitch (log_of (set_currentLevel L h)) = 1%nat
  ∧ calls ImmediateLevelSwitch (log_of (set_loadLevel L h)) = 0%nat.
Proof. intros h'. repeat split. Qed.

(** C6.  With [capLevelToPlayerSize] configured [true], setting it to
    [false] stops the capping controller, sets [autoLevelCapping] to -1,
    asks the stream controller for exactly one next-level switch and records
    the new value in the configuration.  Setting it to the value already
    configured changes nothing and calls nothing, so setting the same value
    a second time has no further effect. *)
Theorem capLevelToPlayerSize_toggle h (b : bool) :
  (cfg_capLevelToPlayerSize (config h) = true →
   set_capLevelToPlayerSize false h =
     (tt,
      with_config (with_capLevelToPlayerSize false (config h))
                  (with_autoLevelCapping (-1) h),
      [StopCapping; NextLevelSwitch])
   ∧ autoLevelCapping (state_of (set_capLevelToPlayerSize false h)) = -1
   ∧ calls NextLevelSwitch (log_of (set_capLevelToPlayerSize false h)) = 1%nat)
  ∧ (b = cfg_capLevelToPlayerSize (config h) →
     set_capLevelToPlayerSize b h = (tt, h, []))
  ∧ set_capLevelToPlayerSize b (state_of (set_capLevelToPlayerSize b h))
    = (tt, state_of (set_capLevelToPlayerSize b h), []).
Proof.
  assert (Hsame : ∀ h0 b0, b0 = cfg_capLevelToPlayerSize (config h0) →
                           set_capLevelToPlayerSize b0 h0 = (tt, h0, [])).
  { intros h0 b0 ->. unfold set_capLevelToPlayerSize. exec.
    by rewrite Bool.eqb_reflx. }
  assert (Hoff : cfg_capLevelToPlayerSize (config h) = true →
    set_capLevelToPlayerSize false h =
      (tt,
       with_config (with_capLevelToPlayerSize false (config h))
                   (with_autoLevelCapping (-1) h),
       [StopCapping; NextLevelSwitch])).
  { intros Hon. unfold set_capLevelToPlayerSize. exec. rewrite Hon. cbn.
    by rewrite set_autoLevelCapping_run. }
  split; [|split].
  - intros Hon. rewrite (Hoff Hon). repeat split.
  - apply Hsame.
  - apply Hsame.
    destruct b, (cfg_capLevelToPlayerSize (config h)) eqn:E.
    + by rewrite Hsame.
    + unfold set_capLevelToPlayerSize. exec. by rewrite E.
    + by rewrite Hoff.
    + by rewrite Hsame.
Qed.

Lemma capLevelToPlayerSize_toggle_witness :
  cfg_capLevelToPlayerSize (config attached) = true
  ∧ autoLevelCapping attached = 1
  ∧ autoLevelCapping (state_of (set_capLevelToPlayerSize false attached)) = -1
  ∧ log_of (set_capLevelToPlayerSize false attached)
    = [StopCapping; NextLevelSwitch]
  ∧ set_capLevelToPlayerSize true attached = (tt, attached, []).
Proof.
  assert (Hon : cfg_capLevelToPlayerSize (config attached) = true)
    by reflexivity.
  destruct (capLevelToPlayerSize_toggle attached true) as (Hoff & Hsame & _).
  destruct (Hoff Hon) as (Hrun & Hcap & _).
  split; [exact Hon|]. split; [reflexivity|]. split; [exact Hcap|].
  split; [by rewrite Hrun|]. apply Hsame. reflexivity.
Defined.

(** C7.  [attachMedia m] followed at once by [detachMedia] leaves no media
    attached and publishes two events: first media-attaching with payload
    [{media: m}], then media-detaching. *)
Theorem attach_then_detach h (m : HTMLMediaElement) :
  let r := (attachMedia m;; detachMedia) h in
  media (state_of r) = None
  ∧ emissions (log_of r)
    = [Emit MEDIA_ATTACHING (MediaData m); Emit MEDIA_DETACHING NoData]
  ∧ calls (Emit MEDIA_ATTACHING (MediaData m)) (emissions (log_of r)) = 1%nat
  ∧ calls (Emit MEDIA_DETACHING NoData) (emissions (log_of r)) = 1%nat
  ∧ media (state_of (attachMedia m h)) = Some m.
Proof.
  intros r.
  assert (Hlog : emissions (log_of r)
    = [Emit MEDIA_ATTACHING (MediaData m); Emit MEDIA_DETACHING NoData]).
  { subst r. unfold mbind, M_bind. rewrite attachMedia_run, detachMedia_run.
    unfold log_of. cbn [snd].
    change (Emit MEDIA_ATTACHING (MediaData m) :: ?a)
      with ([Emit MEDIA_ATTACHING (MediaData m)] ++ a).
    change (Emit MEDIA_DETACHING NoData :: ?a)
      with ([Emit MEDIA_DETACHING NoData] ++ a).
    by rewrite !emissions_app, !emissions_deliveries. }
  rewrite Hlog. split; [|split; [done|]].
  - subst r. unfold mbind, M_bind. by rewrite attachMedia_run, detachMedia_run.
  - split; [|split].
    + unfold calls. cbn [count_occ].
      destruct (Effect_eq_dec _ _) as [_|?]; [|done].
      destruct (Effect_eq_dec _ _) as [?|_]; done.
    + unfold calls. cbn [count_occ].
      destruct (Effect_eq_dec _ _) as [?|_]; [done|].
      destruct (Effect_eq_dec _ _) as [_|?]; done.
    + by rewrite attachMedia_run.
Qed.

(** C8.  [recoverMediaError] reads the attached media, calls [detachMedia],
    and calls [attachMedia] with the media it read exactly when there was
    one.  With media [m] attached it publishes media-detaching then
    media-attaching [{media: m}] and leaves [m] attached.  With no media
    attached it is [detachMedia] and nothing more, a no-op beyond the
    media-detaching event: no media is attached afterwards, no attaching
    event is published, no component is called, and nothing of the instance
    changes but what publishing that event changes in the listener registry.
    It always returns. *)
Theorem recoverMediaError_detaches_then_reattaches h :
  match _media h with
  | Some m =>
      recoverMediaError h = (detachMedia;; attachMedia m) h
      ∧ media (state_of (recoverMediaError h)) = Some m
      ∧ emissions (log_of (recoverMediaError h))
        = [Emit MEDIA_DETACHING NoData; Emit MEDIA_ATTACHING (MediaData m)]
  | None =>
      recoverMediaError h = detachMedia h
      ∧ media (state_of (recoverMediaError h)) = None
      ∧ emissions (log_of (recoverMediaError h)) = [Emit MEDIA_DETACHING NoData]
      ∧ log_of (recoverMediaError h)
        = Emit MEDIA_DETACHING NoData
            :: Emitter.deliveries MEDIA_DETACHING NoData (_emitter h)
      ∧ state_of (recoverMediaError h)
        = with_media None
            (with_emitter (Emitter.after_emit MEDIA_DETACHING (_emitter h)) h)
  end.
Proof.
  rewrite recoverMediaError_run. destruct (_media h) as [m|].
  - split; [done|]. unfold mbind, M_bind.
    rewrite detachMedia_run, attachMedia_run. split; [done|].
    unfold log_of. cbn [snd].
    change (Emit MEDIA_ATTACHING (MediaData m) :: ?a)
      with ([Emit MEDIA_ATTACHING (MediaData m)] ++ a).
    change (Emit MEDIA_DETACHING NoData :: ?a)
      with ([Emit MEDIA_DETACHING NoData] ++ a).
    by rewrite !emissions_app, !emissions_deliveries.
  - split; [done|]. rewrite detachMedia_run. split; [done|].
    unfold log_of, state_of. cbn [fst snd]. split; [|by split].
    change (Emit MEDIA_DETACHING NoData :: ?a)
      with ([Emit MEDIA_DETACHING NoData] ++ a).
    by rewrite !emissions_app, !emissions_deliveries.
Qed.

(** An instance of the last case: with no media attached and one listener
    waiting for the detaching event, the call publishes that event and the
    listener receives it. *)
Lemma recoverMediaError_without_media_still_publishes :
  media listening = None
  ∧ log_of (recoverMediaError listening)
    = [Emit MEDIA_DETACHING NoData; Deliver 7%nat None MEDIA_DETACHING NoData]
  ∧ recoverMediaError listening ≠ (tt, listening, []).
Proof.
  split; [reflexivity|]. split; [reflexivity|].
  vm_compute. discriminate.
Qed.

End LifecycleFacts.

(** ** More on the level selection policy *)

Section PolicyRanges.

Import Policy HlsClass History Examples.

Implicit Types (h : Hls).

Lemma maxAutoLevel_uncapped h :
  autoLevelCapping h = -1 →
  maxAutoLevel h = Z.of_nat (length (levels h)) - 1.
Proof.
  unfold maxAutoLevel. intros ->.
  destruct (levels h); cbn [length]; [done|].
  rewrite Z.eqb_refl. cbn. done.
Qed.

Lemma maxAutoLevel_capped h :
  autoLevelCapping h ≠ -1 → maxAutoLevel h = autoLevelCapping h.
Proof.
  unfold maxAutoLevel. intros Hne.
  destruct (Z.eqb_spec (autoLevelCapping h) (-1)); done.
Qed.

(** [maxAutoLevel] is the last index when the capping is -1, also with no
    level at all, where it is -1; with any other capping it is the capping
    value itself, whatever the number of levels. *)
Theorem maxAutoLevel_by_capping h :
  (autoLevelCapping h = -1 →
   maxAutoLevel h = Z.of_nat (length (levels h)) - 1)
  ∧ (autoLevelCapping h ≠ -1 → maxAutoLevel h = autoLevelCapping h).
Proof. split; [apply maxAutoLevel_uncapped | apply maxAutoLevel_capped]. Qed.

Lemma maxAutoLevel_by_capping_witness :
  maxAutoLevel playing = 2 ∧ maxAutoLevel fresh = -1
  ∧ maxAutoLevel capped_below_floor = 0.
Proof.
  split; [|split].
  - rewrite (proj1 (maxAutoLevel_by_capping playing)); reflexivity.
  - rewrite (proj1 (maxAutoLevel_by_capping fresh)); reflexivity.
  - rewrite (proj2 (maxAutoLevel_by_capping capped_below_floor));
      [reflexivity | vm_compute; discriminate].
Defined.

(** [minAutoLevel] is never negative, and with at least one level it is an
    index of the level list. *)
Theorem minAutoLevel_is_an_index h :
  0 ≤ minAutoLevel h
  ∧ (levels h ≠ [] → minAutoLevel h < Z.of_nat (length (levels h))).
Proof.
  split; [apply minAutoLevel_nonneg | apply minAutoLevel_lt_length].
Qed.

Lemma minAutoLevel_is_an_index_witness :
  levels playing ≠ [] ∧ minAutoLevel playing < 3.
Proof.
  assert (H : levels playing ≠ []) by (vm_compute; discriminate).
  split; [exact H|].
  exact (proj2 (minAutoLevel_is_an_index playing) H).
Defined.

(** What the answer of [minAutoLevel] means: either the level at that index
    is above the floor and none before it is, or no level is above the floor
    and the answer is 0. *)
Theorem minAutoLevel_answer_qualifies h :
  (∃ l : Level,
      levels h !! Z.to_nat (minAutoLevel h) = Some l
      ∧ minAutoBitrate (config h) < maxBitrate l
      ∧ ∀ (j : nat) (l' : Level),
          (j < Z.to_nat (minAutoLevel h))%nat → levels h !! j = Some l' →
          maxBitrate l' ≤ minAutoBitrate (config h))
  ∨ (minAutoLevel h = 0
     ∧ ∀ l, l ∈ levels h → maxBitrate l ≤ minAutoBitrate (config h)).
Proof.
  rewrite minAutoLevel_find.
  destruct (list_find _ _) as [[i x]|] eqn:Hf.
  - left. apply list_find_Some in Hf as (Hi & Hx & Hfirst).
    rewrite Nat2Z.id. exists x. split; [done|]. split; [done|].
    intros j l' Hj Hl. specialize (Hfirst j l' Hl Hj). lia.
  - right. split; [done|]. apply list_find_None in Hf.
    rewrite Forall_forall in Hf. intros l Hl. specialize (Hf l Hl). lia.
Qed.

(** With at least one level and no capping the automatic range is not empty:
    the chain [minAutoLevel ≤ nextAutoLevel ≤ maxAutoLevel] holds and
    [nextAutoLevel] is an index of the level list, whatever the estimator
    suggests. *)
Theorem uncapped_nextAutoLevel_is_an_index h :
  levels h ≠ [] → autoLevelCapping h = -1 →
  minAutoLevel h ≤ nextAutoLevel h ≤ maxAutoLevel h
  ∧ 0 ≤ nextAutoLevel h < Z.of_nat (length (levels h)).
Proof.
  intros Hne Hcap.
  pose proof (minAutoLevel_le_maxAutoLevel_uncapped h Hne Hcap) as Hrange.
  pose proof (minAutoLevel_nonneg h) as Hnn.
  pose proof (maxAutoLevel_uncapped h Hcap) as Hmax.
  unfold nextAutoLevel. lia.
Qed.

Lemma uncapped_nextAutoLevel_is_an_index_witness :
  levels playing ≠ [] ∧ autoLevelCapping playing = -1
  ∧ 0 ≤ nextAutoLevel playing < 3.
Proof.
  assert (H1 : levels playing ≠ []) by (vm_compute; discriminate).
  assert (H2 : autoLevelCapping playing = -1) by reflexivity.
  split; [exact H1|]. split; [exact H2|].
  exact (proj2 (uncapped_nextAutoLevel_is_an_index playing H1 H2)).
Defined.

(** The capping is not checked against the number of levels: after
    [autoLevelCapping := c] with [c ≠ -1], the getter returns [c],
    [maxAutoLevel] is [c], a suggestion between [minAutoLevel] and [c] is
    returned as it is even past the last level, and assigning [c] again
    changes nothing. *)
Theorem autoLevelCapping_is_taken_as_given h (c : Z) :
  c ≠ -1 →
  let h' := state_of (set_autoLevelCapping c h) in
  autoLevelCapping h' = c
  ∧ maxAutoLevel h' = c
  ∧ nextAutoLevel h' ≤ c
  ∧ (minAutoLevel h ≤ abr_nextAutoLevel (abrController h) ≤ c →
     nextAutoLevel h' = abr_nextAutoLevel (abrController h))
  ∧ log_of (set_autoLevelCapping c h) = []
  ∧ set_autoLevelCapping c h' = (tt, h', []).
Proof.
  intros Hc h'.
  assert (Hrun : set_autoLevelCapping c h = (tt, with_autoLevelCapping c h, [])).
  { unfold set_autoLevelCapping, mbind, M_bind, get, modify, mret, M_ret.
    destruct (Z.eqb_spec (_autoLevelCapping h) c) as [<-|_]; cbn; [|done].
    by destruct h. }
  subst h'. rewrite Hrun. unfold state_of, log_of. cbn [fst snd].
  assert (Hmax : maxAutoLevel (with_autoLevelCapping c h) = c).
  { apply (maxAutoLevel_capped (with_autoLevelCapping c h)). exact Hc. }
  assert (Hmin : minAutoLevel (with_autoLevelCapping c h) = minAutoLevel h)
    by reflexivity.
  split; [done|]. split; [done|]. unfold nextAutoLevel.
  rewrite Hmax, Hmin. cbn [abrController with_autoLevelCapping].
  split; [lia|]. split; [lia|]. split; [done|].
  unfold set_autoLevelCapping, mbind, M_bind, get, modify, mret, M_ret.
  cbn. by rewrite Z.eqb_refl.
Qed.

Lemma autoLevelCapping_is_taken_as_given_witness :
  maxAutoLevel (state_of (set_autoLevelCapping 10 playing)) = 10
  ∧ nextAutoLevel (state_of (set_autoLevelCapping 10 playing)) = 5
  ∧ length (levels playing) = 3%nat.
Proof.
  destruct (autoLevelCapping_is_taken_as_given playing 10 ltac:(discriminate))
    as (_ & Hmax & _ & Hkeep & _).
  split; [exact Hmax|]. split; [|reflexivity].
  rewrite Hkeep; [reflexivity|]. vm_compute. split; discriminate.
Defined.

(** [firstLevel] is clamped on read, not on write: the setter hands the value
    to the level controller as it is, and the getter answers
    [max value minAutoLevel], never less than [minAutoLevel]. *)
Theorem firstLevel_is_floored_on_read h (v : Z) :
  let h' := state_of (set_firstLevel v h) in
  lc_firstLevel (levelController h') = v
  ∧ firstLevel h' = Z.max v (minAutoLevel h)
  ∧ minAutoLevel h' ≤ firstLevel h'
  ∧ (minAutoLevel h ≤ v → firstLevel h' = v)
  ∧ log_of (set_firstLevel v h) = [].
Proof.
  intros h'.
  assert (Hmin : minAutoLevel h' = minAutoLevel h) by reflexivity.
  assert (Hget : firstLevel h' = Z.max v (minAutoLevel h)) by reflexivity.
  split; [done|]. split; [done|]. rewrite Hmin, Hget.
  split; [lia|]. split; [lia|done].
Qed.

Lemma firstLevel_is_floored_on_read_witness :
  firstLevel (state_of (set_firstLevel 0 playing)) = 1
  ∧ firstLevel (state_of (set_firstLevel 2 playing)) = 2.
Proof.
  split.
  - destruct (firstLevel_is_floored_on_read playing 0) as (_ & -> & _).
    reflexivity.
  - destruct (firstLevel_is_floored_on_read playing 2) as (_ & _ & _ & Hkeep & _).
    rewrite Hkeep; [reflexivity | vm_compute; discriminate].
Defined.

(** Forcing a next automatic level and reading it back: when the automatic
    range is not empty, the getter answers the forced value clamped into
    [[minAutoLevel, maxAutoLevel]]. *)
Theorem nextAutoLevel_forced_then_read h (v : Z) :
  minAutoLevel h ≤ maxAutoLevel h →
  nextAutoLevel (state_of (set_nextAutoLevel v h))
  = clamp_spec (minAutoLevel h) (maxAutoLevel h) v.
Proof.
  intros Hrange.
  assert (Hget : nextAutoLevel (state_of (set_nextAutoLevel v h))
                 = Z.min (Z.max (Z.max (minAutoLevel h) v) (minAutoLevel h))
                         (maxAutoLevel h)) by reflexivity.
  rewrite Hget. unfold clamp_spec.
  destruct (Z.ltb_spec v (minAutoLevel h));
    destruct (Z.ltb_spec (maxAutoLevel h) v); lia.
Qed.

Lemma nextAutoLevel_forced_then_read_witness :
  minAutoLevel playing ≤ maxAutoLevel playing
  ∧ nextAutoLevel (state_of (set_nextAutoLevel 9 playing)) = 2
  ∧ nextAutoLevel (state_of (set_nextAutoLevel 0 playing)) = 1.
Proof.
  assert (H : minAutoLevel playing ≤ maxAutoLevel playing)
    by (vm_compute; discriminate).
  split; [exact H|]. split.
  - rewrite (nextAutoLevel_forced_then_read playing 9 H). reflexivity.
  - rewrite (nextAutoLevel_forced_then_read playing 0 H). reflexivity.
Defined.

(** A start level other than -1 is stored at or above [minAutoLevel], hence
    never negative, and storing the stored value again does not move it. *)
Theorem startLevel_is_floored_on_write h (L : Z) :
  let h' := state_of (set_startLevel L h) in
  (L ≠ -1 → minAutoLevel h ≤ startLevel h' ∧ 0 ≤ startLevel h')
  ∧ startLevel (state_of (set_startLevel (startLevel h') h')) = startLevel h'.
Proof.
  intros h'. pose proof (minAutoLevel_nonneg h) as Hnn.
  assert (Hst : startLevel h'
                = if negb (L =? -1) then Z.max L (minAutoLevel h) else L)
    by reflexivity.
  assert (Hagain : startLevel (state_of (set_startLevel (startLevel h') h'))
                   = if negb (startLevel h' =? -1)
                     then Z.max (startLevel h') (minAutoLevel h)
                     else startLevel h') by reflexivity.
  rewrite Hagain, Hst. clear Hagain Hst.
  destruct (Z.eqb_spec L (-1)) as [->|HL]; cbn [negb].
  - split; [done|]. reflexivity.
  - split; [lia|].
    destruct (Z.eqb_spec (Z.max L (minAutoLevel h)) (-1)); cbn [negb]; lia.
Qed.

Lemma startLevel_is_floored_on_write_witness :
  0 ≤ startLevel (state_of (set_startLevel (-5) playing)).
Proof.
  exact (proj2 (proj1 (startLevel_is_floored_on_write playing (-5))
                  ltac:(discriminate))).
Defined.

End PolicyRanges.

(** ** More on switching, loading and the lifecycle *)

Section SwitchingAndLoading.

Import Policy HlsClass History Examples Log.

Implicit Types (h : Hls) (w : list Effect).

(** Unfold the monad under a method body and run it. *)
Ltac run :=
  unfold mbind, M_bind, mret, M_ret, modify, get, tell, emit,
    state_of, log_of, value_of;
  cbn -[Emitter.deliveries Emitter.after_emit].

Lemma calls_map_inj (f : Component → Effect) (c : Component)
  (cs : list Component) :
  (∀ a b, f a = f b → a = b) →
  calls (f c) (map f cs) = count_occ Component_eq_dec cs c.
Proof.
  intros Hinj. unfold calls. induction cs as [|d cs IH]; [done|].
  cbn [map count_occ].
  destruct (Effect_eq_dec (f d) (f c)) as [E|N];
    destruct (Component_eq_dec d c) as [E'|N']; try congruence.
  apply Hinj in E. congruence.
Qed.

(** Setting [nextLevel] to [L] leaves the instance that setting [loadLevel]
    to [L] leaves, with the manual level at [L], and makes exactly one call:
    the stream controller's next-level switch, not the immediate one. *)
Theorem nextLevel_sets_override_then_switches h (L : Z) :
  set_nextLevel L h =
    (tt, with_levelController (with_manualLevel L (levelController h)) h,
     [NextLevelSwitch])
  ∧ state_of (set_nextLevel L h) = state_of (set_loadLevel L h)
  ∧ manualLevel (state_of (set_nextLevel L h)) = L
  ∧ calls NextLevelSwitch (log_of (set_nextLevel L h)) = 1%nat
  ∧ calls ImmediateLevelSwitch (log_of (set_nextLevel L h)) = 0%nat.
Proof. repeat split. Qed.

(** Setting [nextLoadLevel] does not touch the manual override: the manual
    level and [autoLevelEnabled] read as before, only the level controller's
    next load level changes, and nothing is called. *)
Theorem nextLoadLevel_leaves_manual_override h (v : Z) :
  let h' := state_of (set_nextLoadLevel v h) in
  nextLoadLevel h' = v
  ∧ manualLevel h' = manualLevel h
  ∧ autoLevelEnabled h' = autoLevelEnabled h
  ∧ loadLevel h' = loadLevel h
  ∧ startLevel h' = startLevel h
  ∧ log_of (set_nextLoadLevel v h) = [].
Proof. intros h'. repeat split. Qed.

(** After any of the three manual setters, automatic selection is enabled
    exactly when the level given was -1. *)
Theorem autoLevelEnabled_iff_minus_one h (L : Z) :
  (autoLevelEnabled (state_of (set_loadLevel L h)) = true ↔ L = -1)
  ∧ (autoLevelEnabled (state_of (set_nextLevel L h)) = true ↔ L = -1)
  ∧ (autoLevelEnabled (state_of (set_currentLevel L h)) = true ↔ L = -1).
Proof.
  assert (H : ∀ f : M unit,
             manualLevel (state_of (f h)) = L →
             autoLevelEnabled (state_of (f h)) = true ↔ L = -1).
  { intros f Hm. unfold autoLevelEnabled. rewrite Hm. apply Z.eqb_eq. }
  split; [|split]; apply H; reflexivity.
Qed.

(** None of the seven level setters publishes an event or reaches a
    listener, and none changes the attached media, the source locator, the
    listener registry, the capping, the configuration or the level list; so
    [minAutoLevel] and [maxAutoLevel] read the same before and after. *)
Theorem level_setters_keep_the_rest h (v : Z) (f : M unit) :
  f ∈ LevelSetters.all v →
  let h' := state_of (f h) in
  media h' = media h
  ∧ url h' = url h
  ∧ _emitter h' = _emitter h
  ∧ autoLevelCapping h' = autoLevelCapping h
  ∧ config h' = config h
  ∧ levels h' = levels h
  ∧ minAutoLevel h' = minAutoLevel h
  ∧ maxAutoLevel h' = maxAutoLevel h
  ∧ emissions (log_of (f h)) = []
  ∧ delivered (log_of (f h)) = [].
Proof.
  intros Hf. unfold LevelSetters.all in Hf.
  repeat (apply elem_of_cons in Hf as [->|Hf]; [repeat split|]).
  by apply elem_of_nil in Hf.
Qed.

Lemma level_setters_keep_the_rest_witness :
  set_nextLevel 2 ∈ LevelSetters.all 2
  ∧ maxAutoLevel (state_of (set_nextLevel 2 playing)) = maxAutoLevel playing
  ∧ emissions (log_of (set_nextLevel 2 playing)) = [].
Proof.
  assert (Hin : set_nextLevel 2 ∈ LevelSetters.all 2).
  { unfold LevelSetters.all. apply elem_of_cons. right.
    apply elem_of_cons. left. reflexivity. }
  destruct (level_setters_keep_the_rest playing 2 (set_nextLevel 2) Hin)
    as (_ & _ & _ & _ & _ & _ & _ & Hmax & Hem & _).
  split; [exact Hin|]. split; [exact Hmax|exact Hem].
Defined.

(** [startLoad] and [stopLoad] on an instance with any history: the call is
    forwarded to the members of [networkControllers] in list order, the level
    controller first and the stream controller second, once to each member
    and never to a member of [coreComponents]; the instance is unchanged. *)
Theorem load_calls_fan_out (cfg : HlsConfig) (ops : list Op) (pos : Z) :
  let h := after cfg ops in
  startLoad pos h
  = (tt, h, map (λ c, StartLoad c pos) (networkControllers h))
  ∧ stopLoad h = (tt, h, map StopLoad (networkControllers h))
  ∧ (∃ rest, networkControllers h
             = levelControllerC :: streamControllerC :: rest)
  ∧ (∀ c, c ∈ networkControllers h →
          calls (StartLoad c pos) (log_of (startLoad pos h)) = 1%nat
          ∧ calls (StopLoad c) (log_of (stopLoad h)) = 1%nat)
  ∧ (∀ c, c ∈ coreComponents h →
          calls (StartLoad c pos) (log_of (startLoad pos h)) = 0%nat
          ∧ calls (StopLoad c) (log_of (stopLoad h)) = 0%nat).
Proof.
  intros h.
  assert (Hstart : startLoad pos h
    = (tt, h, map (λ c, StartLoad c pos) (networkControllers h))).
  { unfold startLoad. run. by rewrite forEach_log. }
  assert (Hstop : stopLoad h = (tt, h, map StopLoad (networkControllers h))).
  { unfold stopLoad. run. by rewrite forEach_log. }
  pose proof (after_components_NoDup cfg ops) as Hnodup. fold h in Hnodup.
  apply NoDup_app in Hnodup as (_ & Hdisjoint & Hnet).
  rewrite Hstart, Hstop. unfold log_of. cbn [snd].
  assert (Hc1 : ∀ c, calls (StartLoad c pos)
                       (map (λ c, StartLoad c pos) (networkControllers h))
                     = count_occ Component_eq_dec (networkControllers h) c).
  { intros c. apply (calls_map_inj (λ c, StartLoad c pos)). congruence. }
  assert (Hc2 : ∀ c, calls (StopLoad c) (map StopLoad (networkControllers h))
                     = count_occ Component_eq_dec (networkControllers h) c).
  { intros c. apply (calls_map_inj StopLoad). congruence. }
  split; [done|]. split; [done|]. split.
  { destruct (after_keeps_components cfg ops) as [_ Hn]. fold h in Hn.
    rewrite Hn. cbn. eauto. }
  split.
  - intros c Hc. rewrite Hc1, Hc2.
    apply NoDup_ListNoDup in Hnet.
    assert (count_occ Component_eq_dec (networkControllers h) c = 1%nat).
    { apply (proj1 (NoDup_count_occ' Component_eq_dec _) Hnet).
      by apply list_elem_of_In. }
    done.
  - intros c Hc. rewrite Hc1, Hc2.
    assert (count_occ Component_eq_dec (networkControllers h) c = 0%nat).
    { apply count_occ_not_In. rewrite <- list_elem_of_In.
      by apply Hdisjoint. }
    done.
Qed.

Lemma load_calls_fan_out_witness :
  let h := after floor200k attached_history in
  audioTrackController ∈ networkControllers h
  ∧ calls (StartLoad audioTrackController (-1)) (log_of (startLoad (-1) h))
    = 1%nat
  ∧ fragmentTracker ∈ coreComponents h
  ∧ calls (StopLoad fragmentTracker) (log_of (stopLoad h)) = 0%nat.
Proof.
  intros h.
  assert (Hnet : audioTrackController ∈ networkControllers h).
  { apply (bool_decide_unpack _). vm_compute. exact I. }
  assert (Hcore : fragmentTracker ∈ coreComponents h).
  { apply (bool_decide_unpack _). vm_compute. exact I. }
  destruct (load_calls_fan_out floor200k attached_history (-1))
    as (_ & _ & _ & Hone & Hnone).
  split; [exact Hnet|]. split; [exact (proj1 (Hone _ Hnet))|].
  split; [exact Hcore|exact (proj2 (Hnone _ Hcore))].
Defined.

End SwitchingAndLoading.

Section Lifecycle.

Import Policy HlsClass History Examples Log.

Implicit Types (h : Hls) (w : list Effect).

Ltac run :=
  unfold mbind, M_bind, mret, M_ret, modify, get, tell, emit,
    state_of, log_of, value_of;
  cbn -[Emitter.deliveries Emitter.after_emit].

Lemma emissions_emit_deliveries e p ls w :
  emissions (Emit e p :: Emitter.deliveries e p ls ++ w)
  = Emit e p :: emissions w.
Proof.
  change (Emit e p :: ?a ++ ?b) with ([Emit e p] ++ a ++ b).
  by rewrite !emissions_app, emissions_deliveries.
Qed.

Lemma calls_emit_deliveries x e p ls w :
  is_deliver x = false →
  calls x (Emit e p :: Emitter.deliveries e p ls ++ w)
  = (calls x [Emit e p] + calls x w)%nat.
Proof.
  intros Hx. change (Emit e p :: ?a ++ ?b) with ([Emit e p] ++ a ++ b).
  by rewrite !calls_app, calls_deliveries.
Qed.

Lemma constructor_optional_components (cfg : HlsConfig) :
  (timelineController ∈ coreComponents (constructor cfg)
   ↔ cfg_timelineController cfg = true)
  ∧ (emeController ∈ coreComponents (constructor cfg)
     ↔ cfg_emeController cfg = true)
  ∧ (audioTrackController ∈ networkControllers (constructor cfg)
     ↔ cfg_audioTrackController cfg = true)
  ∧ (audioStreamController ∈ networkControllers (constructor cfg)
     ↔ cfg_audioStreamController cfg = true)
  ∧ (subtitleTrackController ∈ networkControllers (constructor cfg)
     ↔ cfg_subtitleTrackController cfg = true)
  ∧ (subtitleStreamController ∈ networkControllers (constructor cfg)
     ↔ cfg_subtitleStreamController cfg = true).
Proof.
  destruct cfg as [? ? ? ? a b c d e f].
  cbn [cfg_timelineController cfg_emeController cfg_audioTrackController
       cfg_audioStreamController cfg_subtitleTrackController
       cfg_subtitleStreamController].
  destruct a, b, c, d, e, f; cbn; repeat split; intros H;
    first [ reflexivity
          | discriminate H
          | apply (bool_decide_unpack _); vm_compute; exact I
          | exfalso; apply (bool_decide_pack _) in H; vm_compute in H;
            exact H ].
Qed.

(** The component sets after any history are the ones the constructor
    built: no member is added, removed or repeated, no component is in both
    sets, the seven loaders and controllers every instance has are in
    [coreComponents], and an optional controller is a member exactly when
    the configuration supplied its class. *)
Theorem component_sets_are_fixed (cfg : HlsConfig) (ops : list Op) :
  let h := after cfg ops in
  coreComponents h = coreComponents (constructor cfg)
  ∧ networkControllers h = networkControllers (constructor cfg)
  ∧ NoDup (coreComponents h ++ networkControllers h)
  ∧ (∀ c, c ∈ coreComponents h → c ∉ networkControllers h)
  ∧ (∃ rest, coreComponents h
             = [playListLoader; keyLoader; abrControllerC; bufferController;
                capLevelControllerC; fpsController; fragmentTracker] ++ rest)
  ∧ (timelineController ∈ coreComponents h ↔ cfg_timelineController cfg = true)
  ∧ (emeController ∈ coreComponents h ↔ cfg_emeController cfg = true)
  ∧ (audioTrackController ∈ networkControllers h
     ↔ cfg_audioTrackController cfg = true)
  ∧ (audioStreamController ∈ networkControllers h
     ↔ cfg_audioStreamController cfg = true)
  ∧ (subtitleTrackController ∈ networkControllers h
     ↔ cfg_subtitleTrackController cfg = true)
  ∧ (subtitleStreamController ∈ networkControllers h
     ↔ cfg_subtitleStreamController cfg = true).
Proof.
  intros h.
  pose proof (after_components_NoDup cfg ops) as Hnodup. fold h in Hnodup.
  destruct (after_keeps_components cfg ops) as [Hcore Hnet].
  fold h in Hcore, Hnet.
  split; [done|]. split; [done|]. split; [done|].
  split; [by apply NoDup_app in Hnodup as (_ & Hdisjoint & _)|].
  rewrite Hcore, Hnet.
  split; [cbn; eauto|]. apply constructor_optional_components.
Qed.

Lemma component_sets_are_fixed_witness :
  let h := after floor200k attached_history in
  fragmentTracker ∈ coreComponents h
  ∧ (fragmentTracker ∉ networkControllers h)
  ∧ (audioStreamController ∉ networkControllers h).
Proof.
  intros h.
  destruct (component_sets_are_fixed floor200k attached_history)
    as (_ & _ & _ & Hdisjoint & _ & _ & _ & _ & Haudio & _).
  assert (Hin : fragmentTracker ∈ coreComponents h).
  { apply (bool_decide_unpack _). vm_compute. exact I. }
  split; [exact Hin|]. split; [exact (Hdisjoint _ Hin)|].
  intros Hmember. apply Haudio in Hmember. discriminate Hmember.
Defined.

(** [destroy] is not guarded against a second call: on a destroyed instance
    it publishes the destroying and media-detaching events again, to no
    listener, calls [destroy] on every component as many times as the first
    call did, and leaves the instance as it was. *)
Theorem destroy_twice_destroys_components_again h :
  let h1 := state_of (destroy h) in
  destroy h1 =
    (tt, h1,
     Emit DESTROYING NoData :: Emit MEDIA_DETACHING NoData
       :: map Destroy (coreComponents h ++ networkControllers h))
  ∧ delivered (log_of (destroy h1)) = []
  ∧ ∀ c, calls (Destroy c) (log_of (destroy h1))
         = calls (Destroy c) (log_of (destroy h)).
Proof.
  intros h1.
  assert (Hagain : destroy h1 =
    (tt, h1,
     Emit DESTROYING NoData :: Emit MEDIA_DETACHING NoData
       :: map Destroy (coreComponents h ++ networkControllers h))).
  { subst h1. rewrite (destroy_run h). unfold state_of. cbn [fst snd].
    rewrite destroy_run. reflexivity. }
  rewrite Hagain. unfold log_of at 1 2. cbn [snd].
  split; [done|]. split.
  { unfold delivered. cbn [List.filter is_deliver]. clear Hagain.
    induction (coreComponents h ++ networkControllers h) as [|c cs IH];
      [done|exact IH]. }
  intros c. rewrite (destroy_run h). unfold log_of. cbn [snd].
  change (Emit DESTROYING NoData :: Emit MEDIA_DETACHING NoData :: ?a)
    with ([Emit DESTROYING NoData] ++ [Emit MEDIA_DETACHING NoData] ++ a).
  change (Emit DESTROYING NoData :: ?a ++ ?b)
    with ([Emit DESTROYING NoData] ++ a ++ b).
  change (Emit MEDIA_DETACHING NoData :: ?a ++ ?b)
    with ([Emit MEDIA_DETACHING NoData] ++ a ++ b).
  rewrite !calls_app, !calls_deliveries by done. lia.
Qed.

(** A second [attachMedia] replaces the first: the media of the second call
    is the one attached, both attaching events are published in call order,
    and no detaching event is published for the media that was replaced. *)
Theorem attachMedia_last_write_wins h (m1 m2 : HTMLMediaElement) :
  let r := (attachMedia m1;; attachMedia m2) h in
  media (state_of r) = Some m2
  ∧ emissions (log_of r)
    = [Emit MEDIA_ATTACHING (MediaData m1); Emit MEDIA_ATTACHING (MediaData m2)]
  ∧ calls (Emit MEDIA_DETACHING NoData) (log_of r) = 0%nat.
Proof.
  intros r. subst r. unfold mbind, M_bind. rewrite !attachMedia_run.
  unfold state_of, log_of. cbn [fst snd].
  split; [done|]. cbn [app].
  rewrite <- (app_nil_r (Emitter.deliveries MEDIA_ATTACHING (MediaData m2) _)).
  split.
  - by rewrite !emissions_emit_deliveries.
  - by rewrite !calls_emit_deliveries.
Qed.

(** Turning [capLevelToPlayerSize] on from off starts the capping controller
    and records the flag, without a level switch and without touching
    [autoLevelCapping]; turning it off again stops the controller, asks for
    one next-level switch, and leaves [autoLevelCapping] at -1 and the flag
    off. *)
Theorem capLevelToPlayerSize_on_then_off h :
  cfg_capLevelToPlayerSize (config h) = false →
  let h1 := state_of (set_capLevelToPlayerSize true h) in
  let h2 := state_of (set_capLevelToPlayerSize false h1) in
  set_capLevelToPlayerSize true h =
    (tt, with_config (with_capLevelToPlayerSize true (config h)) h,
     [StartCapping])
  ∧ autoLevelCapping h1 = autoLevelCapping h
  ∧ log_of (set_capLevelToPlayerSize false h1) = [StopCapping; NextLevelSwitch]
  ∧ autoLevelCapping h2 = -1
  ∧ cfg_capLevelToPlayerSize (config h2) = false
  ∧ minAutoBitrate (config h2) = minAutoBitrate (config h).
Proof.
  intros Hoff h1 h2.
  assert (Hon : set_capLevelToPlayerSize true h =
    (tt, with_config (with_capLevelToPlayerSize true (config h)) h,
     [StartCapping])).
  { unfold set_capLevelToPlayerSize. run. by rewrite Hoff. }
  assert (Hback : set_capLevelToPlayerSize false h1 =
    (tt, with_config (with_capLevelToPlayerSize false (config h1))
           (with_autoLevelCapping (-1) h1),
     [StopCapping; NextLevelSwitch])).
  { subst h1. rewrite Hon. unfold state_of. cbn [fst snd].
    unfold set_capLevelToPlayerSize. run.
    by rewrite set_autoLevelCapping_run. }
  subst h2. rewrite Hback. subst h1. rewrite Hon. repeat split.
Qed.

Lemma capLevelToPlayerSize_on_then_off_witness :
  cfg_capLevelToPlayerSize (config fresh) = false
  ∧ log_of (set_capLevelToPlayerSize true fresh) = [StartCapping].
Proof.
  assert (Hoff : cfg_capLevelToPlayerSize (config fresh) = false)
    by reflexivity.
  destruct (capLevelToPlayerSize_on_then_off fresh Hoff) as (Hrun & _).
  split; [exact Hoff|]. by rewrite Hrun.
Defined.

Lemma step_media (o : Op) h :
  media (state_of (step o h)) =
  match o with
  | AttachMedia m => Some m
  | DetachMedia | DestroyInstance => None
  | _ => media h
  end.
Proof.
  destruct o; cbn [step];
    try (unfold startLoad, stopLoad; run; rewrite forEach_log; done);
    try rewrite destroy_run; try rewrite recoverMediaError_run;
    try rewrite set_autoLevelCapping_run;
    try rewrite attachMedia_run; try rewrite detachMedia_run;
    try done.
  - unfold media. destruct (_media h) as [m|]; [|by rewrite ?detachMedia_run].
    unfold mbind, M_bind. by rewrite ?detachMedia_run, ?attachMedia_run.
  - unfold set_capLevelToPlayerSize. run.
    destruct shouldStartCapping, (cfg_capLevelToPlayerSize (config h)); cbn;
      try done.
    rewrite set_autoLevelCapping_run. done.
Qed.

(** Where the attached media comes from: whatever the history, a media
    that is attached was given to an [attachMedia] call of that history;
    [recoverMediaError] in particular attaches nothing new, and neither do
    [destroy], [loadSource] or the setters. *)
Theorem attached_media_provenance (cfg : HlsConfig) (ops : list Op)
  (m : HTMLMediaElement) :
  media (after cfg ops) = Some m → AttachMedia m ∈ ops.
Proof.
  revert m. induction ops as [|o ops IH] using rev_ind; [done|].
  intros m. rewrite after_snoc, step_media.
  rewrite elem_of_app, list_elem_of_singleton.
  destruct o; try (intros H; left; by apply IH); try done.
  intros [= ->]. by right.
Qed.

Lemma attached_media_provenance_witness :
  media (after floor200k attached_history) = Some 3%nat
  ∧ AttachMedia 3%nat ∈ attached_history.
Proof.
  assert (H : media (after floor200k attached_history) = Some 3%nat)
    by (vm_compute; reflexivity).
  split; [exact H|].
  exact (attached_media_provenance floor200k attached_history _ H).
Defined.

End Lifecycle.
